(** * Convergence benchmark viewer: round derivation and playback cursor

    A shallow embedding of [types.ts] and [components/GameViewer.tsx]
    (both found in [src/app/src/App.tsx]): the [GameResult] and [Round]
    records, the loop of [getRounds], the four cursor handlers of the
    [GameViewer] component, the part of its rendered timeline that depends
    on the cursor, its round blocks and the state of its four buttons.

    JavaScript values are modelled as follows.
    - a [number] that holds a count or an index is a [Z];
    - a [string] is a [string]; [string | null] and the result of indexing an
      array ([string | undefined]) are [option string];
    - an array is a [list], read with stdpp's lookup [l !! i], which answers
      [None] out of range where JavaScript answers [undefined];
    - the React state cell [currentRound] is passed explicitly: a handler
      takes the value captured by the render and returns the value it hands
      to [setCurrentRound]. *)

From Stdlib Require Import ZArith Lia.
From stdpp Require Import base list strings.
From Equations Require Import Equations.

Local Open Scope Z_scope.

(** ** types.ts *)

Inductive Outcome : Set :=
| win
| non_convergence
| repetition
| invalid_word.

(** The string literal each member of the union type stands for. *)
Definition outcome_string (o : Outcome) : string :=
  match o with
  | win => "win"
  | non_convergence => "non_convergence"
  | repetition => "repetition"
  | invalid_word => "invalid_word"
  end.

Record GameResult : Type := mkGameResult {
  outcome : Outcome;
  rounds : Z;
  converged_word : option string;
  player1_model : string;
  player2_model : string;
  player1_words : list string;
  player2_words : list string;
  seed_word1 : string;
  seed_word2 : string;
  game_number : Z;
  timestamp : string
}.

(** [player1_word] and [player2_word] are declared [string], but they are
    filled by indexing an array, so at run time they may be [undefined]. *)
Record Round : Type := mkRound {
  number : Z;
  player1_word : option string;
  player2_word : option string;
  converged : bool
}.

(** ** JavaScript primitives used by the component *)

(** [a === b] on values of type [string | undefined]. *)
Definition strict_eq (a b : option string) : bool := bool_decide (a = b).

(** [Array.prototype.slice(start, end)]: negative arguments count from the
    end, both are clamped to the array. *)
Definition slice {A : Type} (l : list A) (start end_ : Z) : list A :=
  let len := Z.of_nat (length l) in
  let k := if start <? 0 then Z.max (len + start) 0 else Z.min start len in
  let final := if end_ <? 0 then Z.max (len + end_) 0 else Z.min end_ len in
  take (Z.to_nat (final - k)) (drop (Z.to_nat k) l).

(** ** GameViewer.tsx: getRounds *)

(** The object pushed by one iteration of the loop, for the index [i]. *)
Definition round_at (game : GameResult) (i : nat) : Round :=
  {| number := Z.of_nat i + 1;
     player1_word := player1_words game !! i;
     player2_word := player2_words game !! i;
     converged := strict_eq (player1_words game !! i) (player2_words game !! i) |}.

(** [for (let i = ...; i < game.player1_words.length; i++) rounds.push(...)],
    entered with the current [i] and the array built so far. *)
Equations? getRounds_loop (game : GameResult) (i : nat) (acc : list Round)
  : list Round by wf (length (player1_words game) - i)%nat lt :=
  getRounds_loop game i acc with decide (i < length (player1_words game))%nat => {
    | left _ := getRounds_loop game (S i) (acc ++ [round_at game i]);
    | right _ := acc }.
Proof. lia. Qed.

Definition getRounds (game : GameResult) : list Round :=
  getRounds_loop game 0 [].

(** The record of [App.tsx]. *)
Definition sampleGame : GameResult :=
  {| outcome := win;
     rounds := 2;
     converged_word := Some "sand"%string;
     player1_model := "claude-3-haiku-20240307";
     player2_model := "claude-3-haiku-20240307";
     player1_words := ["beach"; "sand"]%string;
     player2_words := ["island"; "sand"]%string;
     seed_word1 := "vacation";
     seed_word2 := "rock";
     game_number := 1;
     timestamp := "2025-12-17T08:08:53.877325+00:00" |}.

(** ** GameViewer.tsx: the component

    Every definition takes the [game] prop and [currentRound], the value of
    the state cell in the render at hand. *)

Section GameViewer.
Variable game : GameResult.
Variable currentRound : Z.

(** [rounds.length] for [const rounds = getRounds(game)]. *)
Definition rounds_length : Z := Z.of_nat (length (getRounds game)).

Definition isPlaying : bool := 0 <? currentRound.

Definition visibleRounds : list Round := slice (getRounds game) 0 currentRound.

Definition stepForward : Z :=
  if currentRound <? rounds_length then currentRound + 1 else currentRound.

Definition stepBackward : Z :=
  if 0 <? currentRound then currentRound - 1 else currentRound.

Definition reset : Z := 0.

Definition playAll : Z := rounds_length.

(** [currentRound === rounds.length], the condition of both result
    blocks; the specification calls it [isComplete]. *)
Definition isComplete : bool := currentRound =? rounds_length.
End GameViewer.

(** *** The rendered timeline *)

(** A child of a JSX element: literal text, or an expression in braces.  React
    prints a string or a number and prints nothing for [null]. *)
Inductive Child : Type :=
| Text (s : string)
| StrExpr (s : option string)
| NumExpr (n : Z).

Inductive ResultClass : Set := success | failure.

(** The children of [div.timeline], in document order. *)
Inductive TimelineNode : Type :=
| RoundNode (r : Round)
| StartPrompt
| ResultNode (cls : ResultClass) (message : list Child).

Definition quote : string := String (Ascii.ascii_of_nat 34) EmptyString.

Definition success_message (game : GameResult) : list Child :=
  [ Text ("Converged on " +:+ quote); StrExpr (converged_word game);
    Text (quote +:+ " in "); NumExpr (rounds game); Text " rounds!" ].

Definition failure_message (game : GameResult) : list Child :=
  [ Text "Failed to converge ("; StrExpr (Some (outcome_string (outcome game)));
    Text ")" ].

(** [game.outcome === "win"] *)
Definition outcome_is_win (game : GameResult) : bool :=
  String.eqb (outcome_string (outcome game)) "win".

(** [cond && <element/>]: the element when [cond] holds, nothing otherwise. *)
Definition jsx_and {A : Type} (cond : bool) (node : A) : list A :=
  if cond then [node] else [].

Definition timeline (game : GameResult) (currentRound : Z) : list TimelineNode :=
  map RoundNode (visibleRounds game currentRound)
  ++ jsx_and (negb (isPlaying currentRound)) StartPrompt
  ++ jsx_and (isComplete game currentRound && outcome_is_win game)
       (ResultNode success (success_message game))
  ++ jsx_and (isComplete game currentRound && negb (outcome_is_win game))
       (ResultNode failure (failure_message game)).

(** The [disabled] attribute of the four buttons. *)
Record Controls : Set := mkControls {
  reset_disabled : bool;
  back_disabled : bool;
  step_disabled : bool;
  playAll_disabled : bool
}.

Definition controls (game : GameResult) (currentRound : Z) : Controls :=
  {| reset_disabled := currentRound =? 0;
     back_disabled := currentRound =? 0;
     step_disabled := rounds_length game <=? currentRound;
     playAll_disabled := rounds_length game <=? currentRound |}.

(** *** The state machine of the cursor *)

Inductive Action : Set := StepForward | StepBackward | Reset | PlayAll.

(** The click handler of each button, applied to the cursor of the render
    the click happens in. *)
Definition handle (game : GameResult) (a : Action) (currentRound : Z) : Z :=
  match a with
  | StepForward => stepForward game currentRound
  | StepBackward => stepBackward currentRound
  | Reset => reset
  | PlayAll => playAll game
  end.

(** [useState(0)] *)
Definition initial : Z := 0.

Definition run (game : GameResult) (acts : list Action) : Z :=
  fold_left (fun c a => handle game a c) acts initial.

(** The cursors the component can be in. *)
Inductive reachable (game : GameResult) : Z -> Prop :=
| reach_initial : reachable game initial
| reach_handle (a : Action) (c : Z) :
    reachable game c -> reachable game (handle game a c).

(** *** Repeated stepping, as the specification describes [playAll] *)

(** Click [Step] until a click leaves the cursor where it is, at most [fuel]
    clicks; [None] when the clicks run out first. *)
Fixpoint stepForward_until_noop (fuel : nat) (game : GameResult) (c : Z)
  : option Z :=
  match fuel with
  | O => None
  | S fuel' =>
      let c' := stepForward game c in
      if c' =? c then Some c else stepForward_until_noop fuel' game c'
  end.

(** The element at the 1-based position [k] of a sequence. *)
Definition nth1 {A : Type} (l : list A) (k : nat) : option A :=
  match k with
  | O => None
  | S i => l !! i
  end.

(** *** What the consumer sees in a timeline *)

Definition result_of (node : TimelineNode) : option (ResultClass * list Child) :=
  match node with
  | ResultNode cls message => Some (cls, message)
  | _ => None
  end.

(** The result blocks of a timeline, each with its class and its message. *)
Definition result_nodes (tl : list TimelineNode) : list (ResultClass * list Child) :=
  omap result_of tl.

Definition is_start_prompt (node : TimelineNode) : bool :=
  match node with
  | StartPrompt => true
  | _ => false
  end.

(** Whether the start prompt is among the children of a timeline. *)
Definition shows_start_prompt (tl : list TimelineNode) : bool :=
  existsb is_start_prompt tl.

(** An empty record, for the edge case of a game without rounds. *)
Definition emptyGame : GameResult :=
  {| outcome := non_convergence;
     rounds := 0;
     converged_word := None;
     player1_model := "a";
     player2_model := "b";
     player1_words := [];
     player2_words := [];
     seed_word1 := "vacation";
     seed_word2 := "rock";
     game_number := 1;
     timestamp := "2025-12-17T08:08:53.877325+00:00" |}.

(** A record whose second word list is one short of the first. *)
Definition raggedGame : GameResult :=
  {| outcome := non_convergence;
     rounds := 2;
     converged_word := None;
     player1_model := "a";
     player2_model := "b";
     player1_words := ["beach"; "sand"]%string;
     player2_words := ["island"]%string;
     seed_word1 := "vacation";
     seed_word2 := "rock";
     game_number := 1;
     timestamp := "2025-12-17T08:08:53.877325+00:00" |}.

(** *** The round blocks of the timeline *)

(** The sign between the two words of a round: [span.checkmark] inside
    [div.converge-indicator], or [span.x] inside [div.diverge-indicator]. *)
Inductive Indicator : Set := Checkmark | Cross.

(** What [visibleRounds.map((round) => <div key=... className=...>...)] builds
    for one round. *)
Record RoundDiv : Type := mkRoundDiv {
  key : Z;
  className : string;
  round_label : list Child;
  word_player1 : option string;
  indicator : Indicator;
  word_player2 : option string
}.

Definition render_round (round : Round) : RoundDiv :=
  {| key := number round;
     className :=
       "round " +:+ (if converged round then "converged"%string else EmptyString);
     round_label := [Text "Round "; NumExpr (number round)];
     word_player1 := player1_word round;
     indicator := if converged round then Checkmark else Cross;
     word_player2 := player2_word round |}.

(** The round blocks of a render, in document order. *)
Definition round_divs (game : GameResult) (currentRound : Z) : list RoundDiv :=
  map render_round (visibleRounds game currentRound).

(** * Properties *)

(** ** The loop of [getRounds] *)

Section GetRounds.
Variable game : GameResult.

Lemma getRounds_loop_app (i : nat) (acc : list Round) :
  getRounds_loop game i acc =
  acc ++ map (round_at game) (seq i (length (player1_words game) - i)).
Proof.
  funelim (getRounds_loop game i acc).
  - match goal with IH : getRounds_loop _ _ _ = _ ++ _ |- _ => rewrite IH end.
    replace (length (player1_words game) - i)%nat
      with (S (length (player1_words game) - S i)) by lia.
    cbn [seq map]. rewrite <- app_assoc. reflexivity.
  - replace (length (player1_words game) - i)%nat with 0%nat by lia.
    cbn [seq map]. rewrite app_nil_r. reflexivity.
Qed.

Lemma getRounds_map :
  getRounds game =
  map (round_at game) (seq 0 (length (player1_words game))).
Proof.
  unfold getRounds. rewrite getRounds_loop_app, Nat.sub_0_r. reflexivity.
Qed.

Lemma length_getRounds :
  length (getRounds game) = length (player1_words game).
Proof. rewrite getRounds_map, length_map, length_seq. reflexivity. Qed.

Lemma lookup_getRounds (i : nat) :
  (i < length (player1_words game))%nat ->
  getRounds game !! i = Some (round_at game i).
Proof.
  intros Hi. rewrite getRounds_map, list_lookup_fmap.
  rewrite lookup_seq_lt by exact Hi. reflexivity.
Qed.

Lemma lookup_getRounds_Some (i : nat) (r : Round) :
  getRounds game !! i = Some r ->
  (i < length (player1_words game))%nat /\ r = round_at game i.
Proof.
  intros Hr. pose proof (lookup_lt_Some _ _ _ Hr) as Hi.
  rewrite length_getRounds in Hi. split; [exact Hi|].
  rewrite lookup_getRounds in Hr by exact Hi. congruence.
Qed.

Lemma rounds_length_words :
  rounds_length game = Z.of_nat (length (player1_words game)).
Proof. unfold rounds_length. rewrite length_getRounds. reflexivity. Qed.

Lemma rounds_length_nonneg : 0 <= rounds_length game.
Proof. unfold rounds_length. lia. Qed.
End GetRounds.

Lemma strict_eq_true (a b : option string) : strict_eq a b = true <-> a = b.
Proof. unfold strict_eq. apply bool_decide_eq_true. Qed.

Example getRounds_sample :
  getRounds sampleGame =
  [ mkRound 1 (Some "beach"%string) (Some "island"%string) false;
    mkRound 2 (Some "sand"%string) (Some "sand"%string) true ].
Proof. vm_compute. reflexivity. Qed.

(** Equality of words is exact: a change of case is a different word. *)
Example strict_eq_case_sensitive :
  strict_eq (Some "Sand"%string) (Some "sand"%string) = false.
Proof. vm_compute. reflexivity. Qed.

(** C1. When the two word lists of a record have the same length,
    [getRounds] returns that many rounds, and the round at every index of the
    lists is flagged [converged] exactly when the two words at that index are
    the same string. *)
Theorem getRounds_equal_length (game : GameResult)
  (Hlen : length (player1_words game) = length (player2_words game)) :
  length (getRounds game) = length (player1_words game)
  /\ length (getRounds game) = length (player2_words game)
  /\ forall i : nat, (i < length (player1_words game))%nat ->
       exists (r : Round) (w1 w2 : string),
         getRounds game !! i = Some r
         /\ player1_words game !! i = Some w1
         /\ player2_words game !! i = Some w2
         /\ (converged r = true <-> w1 = w2).
Proof.
  split; [apply length_getRounds|].
  split; [rewrite length_getRounds; exact Hlen|].
  intros i Hi.
  destruct (lookup_lt_is_Some_2 (player1_words game) i Hi) as [w1 Hw1].
  assert (Hi2 : (i < length (player2_words game))%nat) by lia.
  destruct (lookup_lt_is_Some_2 (player2_words game) i Hi2) as [w2 Hw2].
  exists (round_at game i), w1, w2.
  split; [apply lookup_getRounds; exact Hi|].
  split; [exact Hw1|]. split; [exact Hw2|].
  cbn [converged round_at]. rewrite strict_eq_true, Hw1, Hw2.
  split; congruence.
Qed.

Lemma getRounds_equal_length_witness :
  length (getRounds sampleGame) = length (player1_words sampleGame)
  /\ length (getRounds sampleGame) = length (player2_words sampleGame)
  /\ forall i : nat, (i < length (player1_words sampleGame))%nat ->
       exists (r : Round) (w1 w2 : string),
         getRounds sampleGame !! i = Some r
         /\ player1_words sampleGame !! i = Some w1
         /\ player2_words sampleGame !! i = Some w2
         /\ (converged r = true <-> w1 = w2).
Proof. apply (getRounds_equal_length sampleGame). reflexivity. Defined.

(** C10. For every record, whatever the lengths of its two word lists,
    [getRounds] returns as many rounds as [player1_words] has entries; at an
    index past the end of a shorter [player2_words] the round is still there,
    its [player2_word] is undefined and it is not flagged [converged]. *)
Theorem getRounds_length_player1 (game : GameResult) :
  length (getRounds game) = length (player1_words game)
  /\ forall i : nat,
       (length (player2_words game) <= i < length (player1_words game))%nat ->
       exists r : Round,
         getRounds game !! i = Some r
         /\ player1_word r = player1_words game !! i
         /\ player2_word r = None
         /\ converged r = false.
Proof.
  split; [apply length_getRounds|].
  intros i [Hi2 Hi1]. exists (round_at game i).
  split; [apply lookup_getRounds; exact Hi1|].
  cbn [round_at player1_word player2_word converged].
  rewrite (lookup_ge_None_2 (player2_words game) i) by exact Hi2.
  destruct (lookup_lt_is_Some_2 (player1_words game) i Hi1) as [w1 ->].
  repeat split.
Qed.

Lemma getRounds_length_player1_witness :
  exists r : Round,
    getRounds raggedGame !! 1%nat = Some r
    /\ player1_word r = player1_words raggedGame !! 1%nat
    /\ player2_word r = None
    /\ converged r = false.
Proof.
  apply (proj2 (getRounds_length_player1 raggedGame) 1%nat).
  vm_compute. split; [reflexivity | lia].
Defined.

Example getRounds_ragged :
  getRounds raggedGame =
  [ mkRound 1 (Some "beach"%string) (Some "island"%string) false;
    mkRound 2 (Some "sand"%string) None false ].
Proof. vm_compute. reflexivity. Qed.

(** ** Round numbers *)

(** C8, as stated, fails: the first round of the sample record, the one at
    the 1-based index 1, carries the number 1 and not 1 + 1. *)
Lemma number_one_based_plus_one_fails :
  exists r : Round,
    nth1 (getRounds sampleGame) 1 = Some r /\ number r <> 1 + 1.
Proof.
  exists (mkRound 1 (Some "beach"%string) (Some "island"%string) false).
  split; [vm_compute; reflexivity|]. cbn [number]. lia.
Qed.

(** C8, amended. The round at the 0-based index [i] of [getRounds] carries
    the number [i + 1]; that is, the numbering is 1-based and the [k]-th
    round of the sequence carries the number [k]. *)
Theorem getRounds_number (game : GameResult) :
  (forall (i : nat) (r : Round),
     getRounds game !! i = Some r -> number r = Z.of_nat i + 1)
  /\ (forall (k : nat) (r : Round),
     nth1 (getRounds game) k = Some r -> number r = Z.of_nat k).
Proof.
  assert (H0 : forall (i : nat) (r : Round),
             getRounds game !! i = Some r -> number r = Z.of_nat i + 1).
  { intros i r Hr. apply lookup_getRounds_Some in Hr as [_ ->].
    reflexivity. }
  split; [exact H0|].
  intros [|i] r Hr; cbn [nth1] in Hr; [discriminate|].
  rewrite (H0 i r Hr). lia.
Qed.

Lemma getRounds_number_witness :
  number (mkRound 2 (Some "sand"%string) (Some "sand"%string) true) = 1 + 1
  /\ number (mkRound 2 (Some "sand"%string) (Some "sand"%string) true) = 2.
Proof.
  split.
  - apply (proj1 (getRounds_number sampleGame) 1%nat). vm_compute. reflexivity.
  - apply (proj2 (getRounds_number sampleGame) 2%nat). vm_compute. reflexivity.
Defined.

(** ** The cursor *)

Section Cursor.
Variable game : GameResult.

Lemma stepForward_lt (c : Z) :
  c < rounds_length game -> stepForward game c = c + 1.
Proof. intros H. unfold stepForward. rewrite (proj2 (Z.ltb_lt _ _) H). reflexivity. Qed.

Lemma stepForward_ge (c : Z) :
  rounds_length game <= c -> stepForward game c = c.
Proof. intros H. unfold stepForward. rewrite (proj2 (Z.ltb_ge _ _) H). reflexivity. Qed.

Lemma stepBackward_pos (c : Z) : 0 < c -> stepBackward c = c - 1.
Proof. intros H. unfold stepBackward. rewrite (proj2 (Z.ltb_lt _ _) H). reflexivity. Qed.

Lemma stepBackward_nonpos (c : Z) : c <= 0 -> stepBackward c = c.
Proof. intros H. unfold stepBackward. rewrite (proj2 (Z.ltb_ge _ _) H). reflexivity. Qed.

(** Every handler keeps the cursor between 0 and the number of rounds. *)
Lemma handle_in_range (a : Action) (c : Z) :
  0 <= c <= rounds_length game ->
  0 <= handle game a c <= rounds_length game.
Proof.
  intros Hc. pose proof (rounds_length_nonneg game) as HN.
  destruct a; cbn [handle]; unfold reset, playAll.
  - destruct (Z.lt_ge_cases c (rounds_length game)) as [Hlt|Hge].
    + rewrite stepForward_lt by exact Hlt. lia.
    + rewrite stepForward_ge by exact Hge. lia.
  - destruct (Z.lt_ge_cases 0 c) as [Hlt|Hge].
    + rewrite stepBackward_pos by exact Hlt. lia.
    + rewrite stepBackward_nonpos by exact Hge. lia.
  - lia.
  - lia.
Qed.

Lemma reachable_in_range (c : Z) :
  reachable game c -> 0 <= c <= rounds_length game.
Proof.
  induction 1 as [|a c _ IH].
  - unfold initial. pose proof (rounds_length_nonneg game). lia.
  - apply handle_in_range. exact IH.
Qed.

Lemma reachable_run (acts : list Action) : reachable game (run game acts).
Proof.
  unfold run. induction acts as [|a acts IH] using rev_ind.
  - apply reach_initial.
  - rewrite fold_left_app. cbn [fold_left]. apply reach_handle. exact IH.
Qed.

Lemma reachable_is_run (c : Z) :
  reachable game c -> exists acts : list Action, run game acts = c.
Proof.
  induction 1 as [|a c _ [acts IH]].
  - exists []. reflexivity.
  - exists (acts ++ [a]). unfold run in *. rewrite fold_left_app, IH. reflexivity.
Qed.
End Cursor.

(** C2. Every cursor reached from the initial cursor 0 by a finite sequence
    of [stepForward], [stepBackward], [reset] and [playAll] lies between 0
    and the number of derived rounds, both included. *)
Theorem cursor_in_range (game : GameResult) (acts : list Action) (c : Z)
  (Hrun : run game acts = c) :
  0 <= c <= Z.of_nat (length (getRounds game)).
Proof.
  subst c. apply (reachable_in_range game). apply reachable_run.
Qed.

Lemma cursor_in_range_witness :
  0 <= 1 <= Z.of_nat (length (getRounds sampleGame)).
Proof.
  apply (cursor_in_range sampleGame
           [StepForward; PlayAll; StepBackward; Reset; StepForward] 1).
  vm_compute. reflexivity.
Defined.

(** C5. [stepForward] adds one to a cursor below the number of rounds and
    hands back a cursor equal to it unchanged; [stepBackward] takes one from
    a cursor above 0 and hands back the cursor 0 unchanged.  Both are total
    functions: there is no error result. *)
Theorem step_forward_backward (game : GameResult) (c : Z) :
  (c < rounds_length game -> stepForward game c = c + 1)
  /\ (c = rounds_length game -> stepForward game c = c)
  /\ (0 < c -> stepBackward c = c - 1)
  /\ (c = 0 -> stepBackward c = c).
Proof.
  split; [apply stepForward_lt|].
  split; [intros ->; apply stepForward_ge; lia|].
  split; [apply stepBackward_pos|].
  intros ->. apply stepBackward_nonpos. lia.
Qed.

Lemma step_forward_backward_witness :
  stepForward sampleGame 1 = 1 + 1
  /\ stepForward sampleGame 2 = 2
  /\ stepBackward 1 = 1 - 1
  /\ stepBackward 0 = 0.
Proof.
  split; [apply (proj1 (step_forward_backward sampleGame 1)); vm_compute; reflexivity|].
  split; [apply (proj1 (proj2 (step_forward_backward sampleGame 2))); vm_compute; reflexivity|].
  split; [apply (proj1 (proj2 (proj2 (step_forward_backward sampleGame 1)))); lia|].
  apply (proj2 (proj2 (proj2 (step_forward_backward sampleGame 0)))). reflexivity.
Defined.

(** C3, as stated, fails at the upper boundary: with the sample record and
    the cursor on its last round, [stepForward] is ignored and [stepBackward]
    then moves the cursor, so the pair is not a no-op there. *)
Lemma forward_backward_at_end_moves :
  2 = rounds_length sampleGame
  /\ stepBackward (stepForward sampleGame 2) = 1
  /\ stepBackward (stepForward sampleGame 2) <> 2.
Proof.
  split; [vm_compute; reflexivity|].
  split; [vm_compute; reflexivity|].
  vm_compute. discriminate.
Qed.

(** C3, amended. [stepForward] followed by [stepBackward] returns the cursor
    to its value from every cursor that is at least 0 and below the number of
    rounds, the boundary 0 included; from the cursor equal to the number of
    rounds the pair ends one below it when there is a round, and leaves it
    at 0 when there is none. *)
Theorem forward_then_backward (game : GameResult) (c : Z) :
  (0 <= c < rounds_length game ->
     stepBackward (stepForward game c) = c)
  /\ (c = rounds_length game -> 0 < rounds_length game ->
     stepBackward (stepForward game c) = c - 1)
  /\ (c = rounds_length game -> rounds_length game = 0 ->
     stepBackward (stepForward game c) = c).
Proof.
  split; [|split].
  - intros [H0 HN]. rewrite stepForward_lt by exact HN.
    rewrite stepBackward_pos by lia. lia.
  - intros Hc HN. rewrite stepForward_ge by lia.
    apply stepBackward_pos. lia.
  - intros Hc HN. rewrite stepForward_ge by lia.
    apply stepBackward_nonpos. lia.
Qed.

Lemma forward_then_backward_witness :
  stepBackward (stepForward sampleGame 0) = 0
  /\ stepBackward (stepForward sampleGame 2) = 2 - 1
  /\ stepBackward (stepForward emptyGame 0) = 0.
Proof.
  split; [|split].
  - apply (proj1 (forward_then_backward sampleGame 0)). vm_compute.
    split; [discriminate | reflexivity].
  - apply (proj1 (proj2 (forward_then_backward sampleGame 2)));
      vm_compute; reflexivity.
  - apply (proj2 (proj2 (forward_then_backward emptyGame 0)));
      vm_compute; reflexivity.
Defined.

(** ** [reset] and [playAll] *)

Lemma stepForward_until_noop_reaches (game : GameResult) (n : nat) :
  forall (fuel : nat) (c : Z),
    c + Z.of_nat n = rounds_length game ->
    (n < fuel)%nat ->
    stepForward_until_noop fuel game c = Some (rounds_length game).
Proof.
  induction n as [|n IH]; intros fuel c Hc Hfuel.
  - destruct fuel as [|fuel]; [lia|]. cbn [stepForward_until_noop].
    rewrite stepForward_ge by lia. rewrite Z.eqb_refl. f_equal. lia.
  - destruct fuel as [|fuel]; [lia|]. cbn [stepForward_until_noop].
    rewrite stepForward_lt by lia.
    rewrite (proj2 (Z.eqb_neq (c + 1) c)) by lia.
    apply IH; lia.
Qed.

(** C6. From every cursor, [reset] gives 0 and [playAll] gives the number of
    rounds, whatever the cursor was.  From every cursor of the state space
    (0 up to the number of rounds), clicking [stepForward] until a click
    changes nothing ends, after at most as many effective clicks as rounds
    remain, on the cursor [playAll] gives, and one more [stepForward] leaves
    it there. *)
Theorem reset_playAll (game : GameResult) (c : Z) :
  reset = 0
  /\ playAll game = rounds_length game
  /\ handle game Reset c = 0
  /\ handle game PlayAll c = rounds_length game
  /\ (0 <= c <= rounds_length game ->
      forall fuel : nat,
        (Z.to_nat (rounds_length game - c) < fuel)%nat ->
        stepForward_until_noop fuel game c = Some (handle game PlayAll c))
  /\ stepForward game (handle game PlayAll c) = handle game PlayAll c.
Proof.
  repeat (split; [reflexivity|]). split.
  - intros Hc fuel Hfuel. cbn [handle]. unfold playAll.
    apply (stepForward_until_noop_reaches game
             (Z.to_nat (rounds_length game - c))); lia.
  - cbn [handle]. unfold playAll. apply stepForward_ge. lia.
Qed.

Lemma reset_playAll_witness :
  stepForward_until_noop 3 sampleGame 0 = Some (handle sampleGame PlayAll 0).
Proof.
  apply (proj1 (proj2 (proj2 (proj2 (proj2 (reset_playAll sampleGame 0)))))).
  - vm_compute. split; discriminate.
  - vm_compute. lia.
Defined.

Example stepForward_until_noop_sample :
  stepForward_until_noop 3 sampleGame 0 = Some 2
  /\ stepForward_until_noop 2 sampleGame 0 = None.
Proof. vm_compute. split; reflexivity. Qed.

(** ** The visible rounds *)

Lemma slice_prefix {A : Type} (l : list A) (c : Z) :
  0 <= c <= Z.of_nat (length l) -> slice l 0 c = take (Z.to_nat c) l.
Proof.
  intros Hc. unfold slice.
  rewrite (proj2 (Z.ltb_ge 0 0)) by lia.
  rewrite (proj2 (Z.ltb_ge c 0)) by lia.
  rewrite Z.min_l by lia. rewrite Z.min_l by lia.
  rewrite Z.sub_0_r. reflexivity.
Qed.

Lemma visibleRounds_prefix (game : GameResult) (c : Z) :
  0 <= c <= rounds_length game ->
  visibleRounds game c = take (Z.to_nat c) (getRounds game).
Proof. intros Hc. unfold visibleRounds. apply slice_prefix. exact Hc. Qed.

(** C7. In every reachable state [visibleRounds] is the prefix of the derived
    rounds whose length is the cursor: it holds the rounds numbered 1 to the
    cursor, in order, its length is the cursor, and it holds no round numbered
    above the cursor. *)
Theorem visibleRounds_is_prefix (game : GameResult) (acts : list Action) (c : Z)
  (Hrun : run game acts = c) :
  visibleRounds game c = take (Z.to_nat c) (getRounds game)
  /\ Z.of_nat (length (visibleRounds game c)) = c
  /\ (forall i : nat, Z.of_nat i < c ->
        visibleRounds game c !! i = Some (round_at game i))
  /\ (forall i : nat, c <= Z.of_nat i -> visibleRounds game c !! i = None)
  /\ (forall r : Round, r ∈ visibleRounds game c -> 1 <= number r <= c).
Proof.
  assert (Hc : 0 <= c <= rounds_length game).
  { subst c. apply reachable_in_range, reachable_run. }
  pose proof (visibleRounds_prefix game c Hc) as Hvis.
  assert (Hlen : Z.of_nat (length (visibleRounds game c)) = c).
  { rewrite Hvis, length_take. unfold rounds_length in Hc. lia. }
  assert (Hlook : forall i : nat, Z.of_nat i < c ->
            visibleRounds game c !! i = Some (round_at game i)).
  { intros i Hi. rewrite Hvis, lookup_take_lt by lia.
    apply lookup_getRounds. rewrite rounds_length_words in Hc. lia. }
  split; [exact Hvis|]. split; [exact Hlen|]. split; [exact Hlook|]. split.
  - intros i Hi. apply lookup_ge_None_2. lia.
  - intros r Hr. apply list_elem_of_lookup in Hr as [i Hi].
    pose proof (lookup_lt_Some _ _ _ Hi) as Hlt.
    rewrite Hlook in Hi by lia. injection Hi as <-.
    cbn [number round_at]. lia.
Qed.

Lemma visibleRounds_is_prefix_witness :
  visibleRounds sampleGame 1 = take (Z.to_nat 1) (getRounds sampleGame)
  /\ Z.of_nat (length (visibleRounds sampleGame 1)) = 1
  /\ (forall i : nat, Z.of_nat i < 1 ->
        visibleRounds sampleGame 1 !! i = Some (round_at sampleGame i))
  /\ (forall i : nat, 1 <= Z.of_nat i -> visibleRounds sampleGame 1 !! i = None)
  /\ (forall r : Round, r ∈ visibleRounds sampleGame 1 -> 1 <= number r <= 1).
Proof.
  apply (visibleRounds_is_prefix sampleGame [PlayAll; StepBackward] 1).
  vm_compute. reflexivity.
Defined.

Example visibleRounds_sample :
  visibleRounds sampleGame 1 =
  [ mkRound 1 (Some "beach"%string) (Some "island"%string) false ].
Proof. vm_compute. reflexivity. Qed.

(** ** The outcome presentation *)

Lemma outcome_is_win_true (game : GameResult) :
  outcome_is_win game = true <-> outcome game = win.
Proof.
  unfold outcome_is_win. destruct (outcome game); cbn; split;
    intros H; try reflexivity; discriminate H.
Qed.

Lemma outcome_is_win_false (game : GameResult) :
  outcome_is_win game = false <-> outcome game <> win.
Proof.
  rewrite <- outcome_is_win_true. destruct (outcome_is_win game); split;
    intros H; try reflexivity; try discriminate; exfalso; apply H; reflexivity.
Qed.

Lemma result_nodes_rounds (rs : list Round) :
  result_nodes (map RoundNode rs) = [].
Proof. induction rs as [|r rs IH]; [reflexivity | exact IH]. Qed.

Lemma shows_start_prompt_rounds (rs : list Round) :
  shows_start_prompt (map RoundNode rs) = false.
Proof. induction rs as [|r rs IH]; [reflexivity | exact IH]. Qed.

(** The result blocks of a render, read off the two conditions. *)
Lemma result_nodes_timeline (game : GameResult) (c : Z) :
  result_nodes (timeline game c) =
  if isComplete game c
  then if outcome_is_win game
       then [(success, success_message game)]
       else [(failure, failure_message game)]
  else [].
Proof.
  unfold timeline, result_nodes. rewrite !omap_app.
  fold (result_nodes (map RoundNode (visibleRounds game c))).
  rewrite result_nodes_rounds.
  destruct (isPlaying c), (isComplete game c), (outcome_is_win game);
    reflexivity.
Qed.

(** The start prompt of a render, read off its condition. *)
Lemma shows_start_prompt_timeline (game : GameResult) (c : Z) :
  shows_start_prompt (timeline game c) = negb (isPlaying c).
Proof.
  unfold timeline, shows_start_prompt. rewrite !existsb_app.
  fold (shows_start_prompt (map RoundNode (visibleRounds game c))).
  rewrite shows_start_prompt_rounds.
  destruct (isPlaying c), (isComplete game c), (outcome_is_win game);
    reflexivity.
Qed.

(** C4. When the cursor equals the number of rounds, the timeline holds one
    result block: for the outcome [win] the success block, whose message
    carries the record's converged word and its round count; for any other
    outcome the failure block, whose message carries the outcome's own name,
    one of non_convergence, repetition and invalid_word.  Below the number of
    rounds the timeline holds no result block. *)
Theorem result_shown_when_complete (game : GameResult) (c : Z) :
  (c = rounds_length game -> outcome game = win ->
     result_nodes (timeline game c) = [(success, success_message game)]
     /\ StrExpr (converged_word game) ∈ success_message game
     /\ NumExpr (rounds game) ∈ success_message game)
  /\ (c = rounds_length game -> outcome game <> win ->
     result_nodes (timeline game c) = [(failure, failure_message game)]
     /\ StrExpr (Some (outcome_string (outcome game))) ∈ failure_message game
     /\ outcome_string (outcome game)
          ∈ ["non_convergence"; "repetition"; "invalid_word"]%string)
  /\ (c < rounds_length game -> result_nodes (timeline game c) = []).
Proof.
  rewrite result_nodes_timeline. unfold isComplete.
  split; [|split].
  - intros -> Hwin. rewrite Z.eqb_refl.
    rewrite (proj2 (outcome_is_win_true game) Hwin).
    split; [reflexivity|]. unfold success_message.
    split; repeat first [apply list_elem_of_here | apply list_elem_of_further].
  - intros -> Hwin. rewrite Z.eqb_refl.
    rewrite (proj2 (outcome_is_win_false game) Hwin).
    split; [reflexivity|]. unfold failure_message.
    split; [repeat first [apply list_elem_of_here | apply list_elem_of_further]|].
    destruct (outcome game); [exfalso; apply Hwin; reflexivity| | |];
      cbn [outcome_string];
      repeat first [apply list_elem_of_here | apply list_elem_of_further].
  - intros Hlt. rewrite (proj2 (Z.eqb_neq c (rounds_length game))) by lia.
    reflexivity.
Qed.

Lemma result_shown_when_complete_witness :
  (result_nodes (timeline sampleGame 2) = [(success, success_message sampleGame)]
   /\ StrExpr (converged_word sampleGame) ∈ success_message sampleGame
   /\ NumExpr (rounds sampleGame) ∈ success_message sampleGame)
  /\ (result_nodes (timeline raggedGame 2) = [(failure, failure_message raggedGame)]
   /\ StrExpr (Some (outcome_string (outcome raggedGame))) ∈ failure_message raggedGame
   /\ outcome_string (outcome raggedGame)
        ∈ ["non_convergence"; "repetition"; "invalid_word"]%string)
  /\ result_nodes (timeline sampleGame 1) = [].
Proof.
  split; [|split].
  - apply (proj1 (result_shown_when_complete sampleGame 2));
      vm_compute; reflexivity.
  - apply (proj1 (proj2 (result_shown_when_complete raggedGame 2)));
      [vm_compute; reflexivity | discriminate].
  - apply (proj2 (proj2 (result_shown_when_complete sampleGame 1))).
    vm_compute. reflexivity.
Defined.

Example timeline_sample_start :
  timeline sampleGame 0 = [StartPrompt].
Proof. vm_compute. reflexivity. Qed.

Example timeline_sample_end :
  timeline sampleGame 2 =
  map RoundNode (getRounds sampleGame)
  ++ [ResultNode success (success_message sampleGame)].
Proof. vm_compute. reflexivity. Qed.

(** ** The start prompt *)

(** C9, as stated, fails: for a record without words the first render is
    reached with the cursor 0, the number of rounds is 0 too, so the state is
    complete, and the start prompt is among the children of the timeline next
    to the result block. *)
Lemma start_prompt_shown_when_complete :
  run emptyGame [] = 0
  /\ isComplete emptyGame 0 = true
  /\ shows_start_prompt (timeline emptyGame 0) = true
  /\ timeline emptyGame 0 =
     [StartPrompt; ResultNode failure (failure_message emptyGame)].
Proof. vm_compute. repeat split. Qed.

(** C9, amended. In a reachable state the start prompt is shown only when
    the cursor is 0, and it is shown whenever the cursor is 0 and the state is
    not complete.  For a record whose word lists are empty the derived rounds
    are empty, the initial cursor 0 equals their number, so [isComplete]
    holds there, and the result block of the record's outcome is shown in
    that state. *)
Theorem start_prompt_rule (game : GameResult) (acts : list Action) (c : Z)
  (Hrun : run game acts = c) :
  (shows_start_prompt (timeline game c) = true -> c = 0)
  /\ (c = 0 -> isComplete game c = false ->
      shows_start_prompt (timeline game c) = true)
  /\ (player1_words game = [] -> player2_words game = [] ->
      getRounds game = []
      /\ initial = rounds_length game
      /\ isComplete game initial = true
      /\ result_nodes (timeline game initial) =
         [if outcome_is_win game
          then (success, success_message game)
          else (failure, failure_message game)]).
Proof.
  assert (Hc : 0 <= c <= rounds_length game).
  { subst c. apply reachable_in_range, reachable_run. }
  rewrite shows_start_prompt_timeline. unfold isPlaying.
  split; [|split].
  - intros Hshow. apply negb_true_iff, Z.ltb_ge in Hshow. lia.
  - intros -> _. reflexivity.
  - intros Hw1 _.
    assert (Hnil : getRounds game = []).
    { apply length_zero_iff_nil. rewrite length_getRounds, Hw1. reflexivity. }
    assert (HN : rounds_length game = 0).
    { unfold rounds_length. rewrite Hnil. reflexivity. }
    split; [exact Hnil|]. split; [rewrite HN; reflexivity|].
    assert (Hcomplete : isComplete game initial = true).
    { unfold isComplete, initial. rewrite HN. reflexivity. }
    split; [exact Hcomplete|].
    rewrite result_nodes_timeline, Hcomplete.
    destruct (outcome_is_win game); reflexivity.
Qed.

Lemma start_prompt_rule_witness :
  0 = 0
  /\ shows_start_prompt (timeline sampleGame 0) = true
  /\ (getRounds emptyGame = []
      /\ initial = rounds_length emptyGame
      /\ isComplete emptyGame initial = true
      /\ result_nodes (timeline emptyGame initial) =
         [if outcome_is_win emptyGame
          then (success, success_message emptyGame)
          else (failure, failure_message emptyGame)]).
Proof.
  assert (Hsample : run sampleGame [StepForward; Reset] = 0)
    by (vm_compute; reflexivity).
  assert (Hempty : run emptyGame [PlayAll] = 0)
    by (vm_compute; reflexivity).
  split; [|split].
  - apply (proj1 (start_prompt_rule sampleGame _ 0 Hsample)).
    vm_compute. reflexivity.
  - apply (proj1 (proj2 (start_prompt_rule sampleGame _ 0 Hsample)));
      vm_compute; reflexivity.
  - apply (proj2 (proj2 (start_prompt_rule emptyGame _ 0 Hempty)));
      reflexivity.
Defined.

(** * Further properties of the component *)

(** ** What [getRounds] keeps of the two word lists *)

Lemma lookups_seq {A : Type} (l : list A) (n : nat) :
  (n <= length l)%nat ->
  map (fun i : nat => l !! i) (seq 0 n) = map Some (take n l).
Proof.
  revert l. induction n as [|n IH] using nat_ind; intros l Hn.
  - reflexivity.
  - destruct l as [|x l]; [cbn in Hn; lia|].
    cbn [seq map take]. f_equal.
    rewrite <- seq_shift, map_map. apply IH. cbn in Hn. lia.
Qed.

Lemma lookups_seq_omap {A : Type} (l : list A) (n : nat) :
  omap (fun i : nat => l !! i) (seq 0 n) = take n l.
Proof.
  revert l. induction n as [|n IH]; intros l.
  - reflexivity.
  - destruct l as [|x l].
    + cbn [take]. clear IH. generalize 0%nat.
      induction (S n) as [|m IHm]; intros k; [reflexivity|].
      cbn [seq omap]. cbn. apply IHm.
    + cbn [seq take]. cbn [omap]. cbn [lookup list_lookup].
      cbn. f_equal. rewrite <- seq_shift.
      rewrite <- (IH l). clear IH. generalize (seq 0 n). intros js.
      induction js as [|j js IHjs]; [reflexivity|].
      cbn [map omap]. cbn [lookup list_lookup]. cbn.
      rewrite IHjs. reflexivity.
Qed.

Lemma omap_map {A B C : Type} (f : B -> option C) (g : A -> B) (l : list A) :
  omap f (map g l) = omap (fun x => f (g x)) l.
Proof.
  induction l as [|x l IH]; [reflexivity|].
  cbn [map]. cbn. rewrite IH. reflexivity.
Qed.

(** X1. The first player's words come back from the rounds unchanged and in
    order, and no round lacks one: reading [player1_word] off the rounds gives
    exactly [player1_words]. *)
Theorem getRounds_player1_words (game : GameResult) :
  map player1_word (getRounds game) = map Some (player1_words game).
Proof.
  rewrite getRounds_map, map_map. cbn [round_at player1_word].
  rewrite (lookups_seq (player1_words game)) by reflexivity.
  rewrite firstn_all. reflexivity.
Qed.

(** X2. The second player's words that are defined in the rounds are the
    first [player1_words.length] entries of [player2_words]: a longer second
    list is cut to the length of the first, its surplus words appear in no
    round. *)
Theorem getRounds_player2_words (game : GameResult) :
  omap player2_word (getRounds game) =
  take (length (player1_words game)) (player2_words game).
Proof.
  rewrite getRounds_map, omap_map.
  apply (lookups_seq_omap (player2_words game)).
Qed.

(** A record whose second word list is one longer than the first. *)
Example getRounds_longer_player2 :
  getRounds (mkGameResult non_convergence 1 None "a" "b"
               ["beach"]%string ["island"; "sand"]%string "x" "y" 1 "t") =
  [ mkRound 1 (Some "beach"%string) (Some "island"%string) false ].
Proof. vm_compute. reflexivity. Qed.

(** ** The [converged] flag and the words beside it *)

Lemma round_at_converged (game : GameResult) (i : nat) :
  (i < length (player1_words game))%nat ->
  (converged (round_at game i) = true <->
   exists w : string,
     player1_word (round_at game i) = Some w
     /\ player2_word (round_at game i) = Some w).
Proof.
  intros Hi. cbn [round_at converged player1_word player2_word].
  rewrite strict_eq_true.
  destruct (lookup_lt_is_Some_2 (player1_words game) i Hi) as [w1 Hw1].
  rewrite Hw1. split.
  - intros Heq. exists w1. split; [reflexivity | symmetry; exact Heq].
  - intros [w [Hw Hw2]]. congruence.
Qed.

Lemma elem_of_getRounds (game : GameResult) (r : Round) :
  r ∈ getRounds game ->
  exists i : nat, (i < length (player1_words game))%nat /\ r = round_at game i.
Proof.
  intros Hr. apply list_elem_of_lookup in Hr as [i Hi].
  exists i. apply lookup_getRounds_Some. exact Hi.
Qed.

(** X3. A round of [getRounds] is flagged [converged] exactly when both of
    its words are defined and are the same string; a round that lacks its
    second word is never flagged, and every round has its first word. *)
Theorem getRounds_converged_words (game : GameResult) (r : Round)
  (Hr : r ∈ getRounds game) :
  (converged r = true <->
   exists w : string, player1_word r = Some w /\ player2_word r = Some w)
  /\ (player2_word r = None -> converged r = false)
  /\ is_Some (player1_word r).
Proof.
  apply elem_of_getRounds in Hr as [i [Hi ->]].
  pose proof (round_at_converged game i Hi) as Hconv.
  split; [exact Hconv|]. split.
  - intros Hnone. destruct (converged (round_at game i)) eqn:Hc; [|reflexivity].
    destruct (proj1 Hconv eq_refl) as [w [_ Hw]]. congruence.
  - cbn [round_at player1_word]. apply lookup_lt_is_Some_2. exact Hi.
Qed.

Lemma getRounds_converged_words_witness :
  (converged (mkRound 2 (Some "sand"%string) None false) = true <->
   exists w : string,
     player1_word (mkRound 2 (Some "sand"%string) None false) = Some w
     /\ player2_word (mkRound 2 (Some "sand"%string) None false) = Some w)
  /\ (player2_word (mkRound 2 (Some "sand"%string) None false) = None ->
      converged (mkRound 2 (Some "sand"%string) None false) = false)
  /\ is_Some (player1_word (mkRound 2 (Some "sand"%string) None false)).
Proof.
  apply (getRounds_converged_words raggedGame).
  vm_compute. apply list_elem_of_further, list_elem_of_here.
Defined.

(** ** The visible rounds at any cursor *)

Lemma slice_from_start {A : Type} (l : list A) (c : Z) :
  slice l 0 c =
  take (Z.to_nat (if c <? 0 then Z.max (Z.of_nat (length l) + c) 0
                  else Z.min c (Z.of_nat (length l)))) l.
Proof.
  unfold slice. rewrite (proj2 (Z.ltb_ge 0 0)) by lia.
  rewrite (Z.min_l 0) by lia. rewrite Z.sub_0_r. reflexivity.
Qed.

(** X4. Whatever integer the cursor holds, [visibleRounds] is a prefix of the
    derived rounds: at or above the number of rounds it is all of them, a
    negative cursor counts from the end as [slice] does, and from minus the
    number of rounds downwards it is empty. *)
Theorem visibleRounds_any_cursor (game : GameResult) (c : Z) :
  visibleRounds game c `prefix_of` getRounds game
  /\ (rounds_length game <= c -> visibleRounds game c = getRounds game)
  /\ (- rounds_length game <= c < 0 ->
      visibleRounds game c =
      take (Z.to_nat (rounds_length game + c)) (getRounds game))
  /\ (c <= - rounds_length game -> visibleRounds game c = []).
Proof.
  unfold visibleRounds, rounds_length. rewrite slice_from_start.
  split; [apply prefix_take|]. split; [|split].
  - intros Hc. destruct (Z.ltb_spec c 0) as [Hneg|Hpos].
    + assert (length (getRounds game) = 0%nat) as Hnil by lia.
      apply length_zero_iff_nil in Hnil. rewrite Hnil. apply take_nil.
    + rewrite Z.min_r by lia. rewrite Nat2Z.id. apply firstn_all.
  - intros [Hlo Hhi]. rewrite (proj2 (Z.ltb_lt c 0)) by exact Hhi.
    rewrite Z.max_l by lia. reflexivity.
  - intros Hc. destruct (Z.ltb_spec c 0) as [Hneg|Hpos].
    + rewrite Z.max_r by lia. reflexivity.
    + assert (length (getRounds game) = 0%nat) as Hnil by lia.
      apply length_zero_iff_nil in Hnil. rewrite Hnil. apply take_nil.
Qed.

Lemma visibleRounds_any_cursor_witness :
  visibleRounds sampleGame 5 = getRounds sampleGame
  /\ visibleRounds sampleGame (-1) =
     take (Z.to_nat (rounds_length sampleGame + -1)) (getRounds sampleGame)
  /\ visibleRounds sampleGame (-2) = [].
Proof.
  split; [|split].
  - apply (proj1 (proj2 (visibleRounds_any_cursor sampleGame 5))).
    vm_compute. discriminate.
  - apply (proj1 (proj2 (proj2 (visibleRounds_any_cursor sampleGame (-1))))).
    vm_compute. split; [discriminate | reflexivity].
  - apply (proj2 (proj2 (proj2 (visibleRounds_any_cursor sampleGame (-2))))).
    vm_compute. discriminate.
Defined.

(** ** The round blocks *)

Lemma getRounds_numbers (game : GameResult) :
  map number (getRounds game) =
  map (fun i : nat => Z.of_nat i + 1) (seq 0 (length (player1_words game))).
Proof. rewrite getRounds_map, map_map. reflexivity. Qed.

Lemma NoDup_getRounds_numbers (game : GameResult) :
  NoDup (map number (getRounds game)).
Proof.
  rewrite getRounds_numbers.
  apply (NoDup_fmap_2_strong (fun i : nat => Z.of_nat i + 1)).
  - intros i j _ _ Hij. lia.
  - apply NoDup_seq.
Qed.

(** X5. In every render, whatever the cursor, the React keys of the round
    blocks are pairwise distinct: no two blocks of a timeline share a key. *)
Theorem round_divs_keys_distinct (game : GameResult) (c : Z) :
  NoDup (map key (round_divs game c)).
Proof.
  unfold round_divs. rewrite map_map. cbn [render_round key].
  apply (sublist_NoDup _ (map number (getRounds game))).
  - apply NoDup_getRounds_numbers.
  - apply (fmap_sublist number). unfold visibleRounds. rewrite slice_from_start.
    apply sublist_take.
Qed.

(** X6. Every round block of a render shows the check mark exactly when the
    two words it displays are defined and the same; it then has the class
    [round converged], and otherwise it shows the cross.  Its label carries
    its key, and the first word is always displayed. *)
Theorem round_div_indicator (game : GameResult) (c : Z) (d : RoundDiv)
  (Hd : d ∈ round_divs game c) :
  (indicator d = Checkmark <->
   exists w : string, word_player1 d = Some w /\ word_player2 d = Some w)
  /\ (indicator d = Checkmark <-> className d = "round converged"%string)
  /\ (indicator d = Cross <-> className d = "round "%string)
  /\ round_label d = [Text "Round "; NumExpr (key d)]
  /\ is_Some (word_player1 d).
Proof.
  unfold round_divs in Hd. apply list_elem_of_fmap in Hd as [r [-> Hr]].
  assert (Hin : r ∈ getRounds game).
  { unfold visibleRounds in Hr. rewrite slice_from_start in Hr.
    apply elem_of_take in Hr as [j [Hj _]].
    apply list_elem_of_lookup. exists j. exact Hj. }
  apply elem_of_getRounds in Hin as [i [Hi ->]].
  pose proof (round_at_converged game i Hi) as Hconv.
  cbn [render_round indicator className round_label key word_player1 word_player2].
  split; [|split; [|split; [|split]]].
  - rewrite <- Hconv.
    destruct (converged (round_at game i)); split; intros H;
      try reflexivity; discriminate H.
  - destruct (converged (round_at game i)); split; intros H;
      try reflexivity; discriminate H.
  - destruct (converged (round_at game i)); split; intros H;
      try reflexivity; discriminate H.
  - reflexivity.
  - cbn [round_at player1_word]. apply lookup_lt_is_Some_2. exact Hi.
Qed.

Lemma round_div_indicator_witness :
  indicator (render_round (mkRound 2 (Some "sand"%string) (Some "sand"%string) true))
  = Checkmark.
Proof.
  assert (Hd : render_round (mkRound 2 (Some "sand"%string) (Some "sand"%string) true)
               ∈ round_divs sampleGame 2).
  { vm_compute. apply list_elem_of_further, list_elem_of_here. }
  apply (proj1 (round_div_indicator sampleGame 2 _ Hd)).
  exists "sand"%string. split; reflexivity.
Defined.

(** ** Sequences of clicks *)

Lemma run_snoc (game : GameResult) (acts : list Action) (a : Action) :
  run game (acts ++ [a]) = handle game a (run game acts).
Proof. unfold run. rewrite fold_left_app. reflexivity. Qed.

Lemma run_in_range (game : GameResult) (acts : list Action) :
  0 <= run game acts <= rounds_length game.
Proof. apply reachable_in_range, reachable_run. Qed.

Lemma step_clicks_from (game : GameResult) (acts : list Action) (n : nat) :
  run game (acts ++ replicate n StepForward) =
  Z.min (run game acts + Z.of_nat n) (rounds_length game).
Proof.
  pose proof (run_in_range game acts) as Hc.
  induction n as [|n IH].
  - cbn [replicate]. rewrite app_nil_r. lia.
  - rewrite replicate_S_end, app_assoc, run_snoc, IH. cbn [handle].
    destruct (Z.lt_ge_cases (run game acts + Z.of_nat n) (rounds_length game))
      as [Hlt|Hge].
    + rewrite stepForward_lt by lia. lia.
    + rewrite stepForward_ge by lia. lia.
Qed.

(** X7. After any clicks, [n] further clicks on Step move the cursor forward
    by [n] but not past the number of rounds: the cursor ends on the smaller
    of the two.  From the first render, as many clicks as there are rounds
    reveal the whole game and further clicks change nothing. *)
Theorem step_clicks (game : GameResult) (acts : list Action) (n : nat) :
  run game (acts ++ replicate n StepForward) =
  Z.min (run game acts + Z.of_nat n) (rounds_length game)
  /\ run game (replicate n StepForward) =
     Z.min (Z.of_nat n) (rounds_length game)
  /\ run game (replicate (length (player1_words game) + n) StepForward) =
     rounds_length game.
Proof.
  split; [apply step_clicks_from|].
  assert (Hstart : forall m : nat,
            run game (replicate m StepForward) =
            Z.min (Z.of_nat m) (rounds_length game)).
  { intros m. change (replicate m StepForward)
      with ([] ++ replicate m StepForward).
    rewrite step_clicks_from. unfold run, initial. cbn [fold_left].
    f_equal. }
  split; [apply Hstart|].
  rewrite Hstart, rounds_length_words. lia.
Qed.

(** X8. After any clicks, [n] further clicks on Back move the cursor back by
    [n] but not below 0: the cursor ends on [max (cursor - n) 0]. *)
Theorem back_clicks (game : GameResult) (acts : list Action) (n : nat) :
  run game (acts ++ replicate n StepBackward) =
  Z.max (run game acts - Z.of_nat n) 0.
Proof.
  pose proof (run_in_range game acts) as Hc.
  induction n as [|n IH].
  - cbn [replicate]. rewrite app_nil_r. lia.
  - rewrite replicate_S_end, app_assoc, run_snoc, IH. cbn [handle].
    destruct (Z.lt_ge_cases 0 (run game acts - Z.of_nat n)) as [Hlt|Hge].
    + rewrite stepBackward_pos by lia. lia.
    + rewrite stepBackward_nonpos by lia. lia.
Qed.

Example step_clicks_sample :
  run sampleGame (replicate 2 StepForward) = 2
  /\ run sampleGame (replicate 3 StepForward) = 2
  /\ run sampleGame (replicate 3 StepForward ++ replicate 5 StepBackward) = 0.
Proof. vm_compute. repeat split. Qed.

(** X9. The cursors the component can show are exactly the integers from 0
    to the number of rounds: each of them is reached by some sequence of
    clicks (that many clicks on Step), and no sequence reaches another. *)
Theorem reachable_cursors (game : GameResult) (c : Z) :
  (exists acts : list Action, run game acts = c)
  <-> 0 <= c <= rounds_length game.
Proof.
  split.
  - intros [acts <-]. apply run_in_range.
  - intros Hc. exists ([] ++ replicate (Z.to_nat c) StepForward).
    rewrite step_clicks_from. unfold run, initial. cbn [fold_left]. lia.
Qed.

(** X10. Back followed by Step returns the cursor to its value from every
    cursor above 0 and up to the number of rounds, the last one included; from
    the cursor 0 the pair ends on 1 when there is a round, and stays on 0 when
    there is none. *)
Theorem backward_then_forward (game : GameResult) (c : Z) :
  (0 < c <= rounds_length game ->
     stepForward game (stepBackward c) = c)
  /\ (c = 0 -> 0 < rounds_length game ->
     stepForward game (stepBackward c) = 1)
  /\ (c = 0 -> rounds_length game = 0 ->
     stepForward game (stepBackward c) = 0).
Proof.
  split; [|split].
  - intros [H0 HN]. rewrite stepBackward_pos by exact H0.
    rewrite stepForward_lt by lia. lia.
  - intros -> HN. rewrite stepBackward_nonpos by lia.
    rewrite stepForward_lt by lia. reflexivity.
  - intros -> HN. rewrite stepBackward_nonpos by lia.
    apply stepForward_ge. lia.
Qed.

Lemma backward_then_forward_witness :
  stepForward sampleGame (stepBackward 2) = 2
  /\ stepForward sampleGame (stepBackward 0) = 1
  /\ stepForward emptyGame (stepBackward 0) = 0.
Proof.
  split; [|split].
  - apply (proj1 (backward_then_forward sampleGame 2)). vm_compute.
    split; [reflexivity | discriminate].
  - apply (proj1 (proj2 (backward_then_forward sampleGame 0)));
      vm_compute; reflexivity.
  - apply (proj2 (proj2 (backward_then_forward emptyGame 0)));
      vm_compute; reflexivity.
Defined.

(** ** The buttons *)

(** X11. In every state of the cursor (0 up to the number of rounds) a button
    is disabled exactly when its handler would leave the cursor where it
    is. *)
Theorem disabled_iff_noop (game : GameResult) (c : Z)
  (Hc : 0 <= c <= rounds_length game) :
  (reset_disabled (controls game c) = true <-> handle game Reset c = c)
  /\ (back_disabled (controls game c) = true <-> handle game StepBackward c = c)
  /\ (step_disabled (controls game c) = true <-> handle game StepForward c = c)
  /\ (playAll_disabled (controls game c) = true <-> handle game PlayAll c = c).
Proof.
  cbn [controls reset_disabled back_disabled step_disabled playAll_disabled handle].
  unfold reset, playAll. rewrite Z.eqb_eq, Z.leb_le.
  split; [lia|]. split; [|split].
  - destruct (Z.lt_ge_cases 0 c) as [Hlt|Hge].
    + rewrite stepBackward_pos by exact Hlt. lia.
    + rewrite stepBackward_nonpos by exact Hge. lia.
  - destruct (Z.lt_ge_cases c (rounds_length game)) as [Hlt|Hge].
    + rewrite stepForward_lt by exact Hlt. lia.
    + rewrite stepForward_ge by exact Hge. lia.
  - lia.
Qed.

Lemma disabled_iff_noop_witness :
  (reset_disabled (controls sampleGame 2) = true <-> handle sampleGame Reset 2 = 2)
  /\ (back_disabled (controls sampleGame 2) = true
      <-> handle sampleGame StepBackward 2 = 2)
  /\ (step_disabled (controls sampleGame 2) = true
      <-> handle sampleGame StepForward 2 = 2)
  /\ (playAll_disabled (controls sampleGame 2) = true
      <-> handle sampleGame PlayAll 2 = 2).
Proof.
  apply (disabled_iff_noop sampleGame 2). vm_compute. split; discriminate.
Defined.

(** X12. In every state of the cursor, Back and Step are both disabled only
    for a record without first-player words, and then all four buttons are
    disabled in every state; with at least one round some button always
    works. *)
Theorem buttons_all_disabled (game : GameResult) (c : Z)
  (Hc : 0 <= c <= rounds_length game) :
  (back_disabled (controls game c) && step_disabled (controls game c) = true
   <-> player1_words game = [])
  /\ (player1_words game = [] ->
      controls game c = mkControls true true true true).
Proof.
  cbn [controls reset_disabled back_disabled step_disabled playAll_disabled].
  rewrite rounds_length_words in *.
  rewrite andb_true_iff, Z.eqb_eq, Z.leb_le, <- length_zero_iff_nil.
  split; [lia|]. intros Hnil.
  assert (c = 0) as -> by lia.
  unfold controls. rewrite rounds_length_words, Hnil. reflexivity.
Qed.

Lemma buttons_all_disabled_witness :
  (back_disabled (controls emptyGame 0) && step_disabled (controls emptyGame 0) = true
   <-> player1_words emptyGame = [])
  /\ (player1_words emptyGame = [] ->
      controls emptyGame 0 = mkControls true true true true).
Proof.
  apply (buttons_all_disabled emptyGame 0). vm_compute. split; discriminate.
Defined.

(** ** What a click does to the visible rounds *)

(** X13. In every state of the cursor: an effective Step keeps the visible
    rounds and appends the next round of the game; an effective Back removes
    the last visible round and keeps the others; Reset hides all rounds and
    Play All shows all of them. *)
Theorem visibleRounds_after_click (game : GameResult) (c : Z)
  (Hc : 0 <= c <= rounds_length game) :
  (c < rounds_length game ->
     visibleRounds game (handle game StepForward c) =
     visibleRounds game c ++ [round_at game (Z.to_nat c)])
  /\ (0 < c ->
     visibleRounds game c =
     visibleRounds game (handle game StepBackward c)
       ++ [round_at game (Z.to_nat (c - 1))])
  /\ visibleRounds game (handle game Reset c) = []
  /\ visibleRounds game (handle game PlayAll c) = getRounds game.
Proof.
  assert (Hstep : forall k : Z, 0 <= k < rounds_length game ->
            visibleRounds game (k + 1) =
            visibleRounds game k ++ [round_at game (Z.to_nat k)]).
  { intros k Hk. rewrite !visibleRounds_prefix by lia.
    replace (Z.to_nat (k + 1)) with (S (Z.to_nat k)) by lia.
    apply take_S_r. apply lookup_getRounds.
    rewrite rounds_length_words in Hk. lia. }
  cbn [handle]. unfold reset, playAll. split; [|split; [|split]].
  - intros Hlt. rewrite stepForward_lt by exact Hlt. apply Hstep. lia.
  - intros Hpos. rewrite stepBackward_pos by exact Hpos.
    replace c with (c - 1 + 1) at 1 by lia. apply Hstep. lia.
  - rewrite visibleRounds_prefix by lia. reflexivity.
  - rewrite visibleRounds_prefix by lia. unfold rounds_length.
    rewrite Nat2Z.id. apply firstn_all.
Qed.

Lemma visibleRounds_after_click_witness :
  visibleRounds sampleGame (handle sampleGame StepForward 1) =
  visibleRounds sampleGame 1 ++ [round_at sampleGame (Z.to_nat 1)]
  /\ visibleRounds sampleGame 1 =
     visibleRounds sampleGame (handle sampleGame StepBackward 1)
       ++ [round_at sampleGame (Z.to_nat (1 - 1))].
Proof.
  assert (Hc : 0 <= 1 <= rounds_length sampleGame)
    by (vm_compute; split; discriminate).
  split.
  - apply (proj1 (visibleRounds_after_click sampleGame 1 Hc)).
    vm_compute. reflexivity.
  - apply (proj1 (proj2 (visibleRounds_after_click sampleGame 1 Hc))).
    reflexivity.
Defined.

(** ** The shape of the timeline *)

(** X14. For a game with at least one round the timeline is, in every state
    of the cursor, one of three shapes: at the cursor 0 the start prompt
    alone; strictly between 0 and the number of rounds the visible round
    blocks and nothing else; at the number of rounds all the round blocks
    followed by exactly one result block. *)
Theorem timeline_shape (game : GameResult) (c : Z)
  (HN : 0 < rounds_length game) :
  (c = 0 -> timeline game c = [StartPrompt])
  /\ (0 < c < rounds_length game ->
      timeline game c = map RoundNode (take (Z.to_nat c) (getRounds game)))
  /\ (c = rounds_length game ->
      timeline game c =
      map RoundNode (getRounds game)
      ++ [if outcome_is_win game
          then ResultNode success (success_message game)
          else ResultNode failure (failure_message game)]).
Proof.
  unfold timeline, isPlaying, isComplete. split; [|split].
  - intros ->. rewrite visibleRounds_prefix by lia.
    rewrite (proj2 (Z.eqb_neq 0 (rounds_length game))) by lia.
    reflexivity.
  - intros Hc. rewrite visibleRounds_prefix by lia.
    rewrite (proj2 (Z.ltb_lt 0 c)) by lia.
    rewrite (proj2 (Z.eqb_neq c (rounds_length game))) by lia.
    cbn [negb andb jsx_and]. rewrite !app_nil_r. reflexivity.
  - intros ->. rewrite visibleRounds_prefix by lia.
    rewrite (proj2 (Z.ltb_lt 0 (rounds_length game))) by lia.
    rewrite Z.eqb_refl. unfold rounds_length at 1.
    rewrite Nat2Z.id, firstn_all.
    destruct (outcome_is_win game); reflexivity.
Qed.

Lemma timeline_shape_witness :
  timeline sampleGame 0 = [StartPrompt]
  /\ timeline sampleGame 1 =
     map RoundNode (take (Z.to_nat 1) (getRounds sampleGame))
  /\ timeline sampleGame 2 =
     map RoundNode (getRounds sampleGame)
     ++ [if outcome_is_win sampleGame
         then ResultNode success (success_message sampleGame)
         else ResultNode failure (failure_message sampleGame)].
Proof.
  assert (HN : 0 < rounds_length sampleGame) by (vm_compute; reflexivity).
  split; [|split].
  - apply (proj1 (timeline_shape sampleGame 0 HN)). reflexivity.
  - apply (proj1 (proj2 (timeline_shape sampleGame 1 HN))).
    vm_compute. split; reflexivity.
  - apply (proj2 (proj2 (timeline_shape sampleGame 2 HN))).
    vm_compute. reflexivity.
Defined.
